(** * The option model of [vowpalwabbit/config/option.h]

    A shallow embedding of [VW::config::base_option], [typed_option<T>],
    [typed_option_with_location<T>], [typed_option_visitor] and the
    equality operators, followed by the properties of the specification
    that concern them.

    Conventions.
    - The eight instantiations admitted by the [static_assert] of
      [typed_option] form the enumeration [value_kind]; [value_type T] is
      the C++ type [T].
    - A member function that mutates [*this] is a function returning the
      new object; one that can [THROW] returns a [result].
    - [std::shared_ptr<T>] members are only ever replaced as a whole
      ([std::make_shared]) and never written through, so [option] models
      them: [None] is [nullptr].
    - The variable a [typed_option_with_location] points to lives in a
      [memory]: a finite map from addresses to values, together with the
      log of the stores made so far. *)

From Stdlib Require Import ZArith String Ascii List Bool Lia SpecFloat DecimalString.
From Stdlib Require Import DecimalPos DecimalZ.
From stdpp Require Import base option list gmap strings.

Open Scope string_scope.
Open Scope list_scope.
Open Scope Z_scope.

(** ** Value types *)

(** The closed set of value types, in the order of the [visit] overloads. *)
Inductive value_kind : Set :=
  | UInt32 | UInt64 | Int64 | Int32 | Bool | Float | Str | StrVec.

#[global] Instance value_kind_eq_dec : EqDecision value_kind.
Proof. solve_decision. Defined.

(** [uint32_t], [uint64_t], [int64_t], [int32_t] are integers of the range
    given by [representable]; [float] is an IEEE 754 datum (binary32 when
    [valid_binary 24 128] holds); [std::vector<std::string>] is a list. *)
Definition value_type (T : value_kind) : Type :=
  match T with
  | UInt32 | UInt64 | Int64 | Int32 => Z
  | Bool => bool
  | Float => spec_float
  | Str => string
  | StrVec => list string
  end.

Definition representable (T : value_kind) : value_type T -> bool :=
  match T return value_type T -> bool with
  | UInt32 => fun z => (0 <=? z) && (z <? 2 ^ 32)
  | UInt64 => fun z => (0 <=? z) && (z <? 2 ^ 64)
  | Int64 => fun z => (- 2 ^ 63 <=? z) && (z <? 2 ^ 63)
  | Int32 => fun z => (- 2 ^ 31 <=? z) && (z <? 2 ^ 31)
  | Bool => fun _ => true
  | Float => fun x => valid_binary 24 128 x
  | Str => fun _ => true
  | StrVec => fun _ => true
  end.

(** [operator==] and [operator<] of [std::vector<std::string>]:
    element-wise equality and lexicographic order. *)
Fixpoint vector_eqb (a b : list string) : bool :=
  match a, b with
  | [], [] => true
  | x :: a', y :: b' => String.eqb x y && vector_eqb a' b'
  | _, _ => false
  end.

Fixpoint vector_ltb (a b : list string) : bool :=
  match a, b with
  | _, [] => false
  | [], _ :: _ => true
  | x :: a', y :: b' =>
      if String.ltb x y then true
      else if String.ltb y x then false
      else vector_ltb a' b'
  end.

(** [operator==] on [T]. *)
Definition value_eqb (T : value_kind) : value_type T -> value_type T -> bool :=
  match T return value_type T -> value_type T -> bool with
  | UInt32 | UInt64 | Int64 | Int32 => Z.eqb
  | Bool => Bool.eqb
  | Float => SFeqb
  | Str => String.eqb
  | StrVec => vector_eqb
  end.

(** [std::less<T>], the comparator of [std::set<T>]. *)
Definition value_ltb (T : value_kind) : value_type T -> value_type T -> bool :=
  match T return value_type T -> value_type T -> bool with
  | UInt32 | UInt64 | Int64 | Int32 => Z.ltb
  | Bool => fun a b => negb a && b
  | Float => SFltb
  | Str => String.ltb
  | StrVec => vector_ltb
  end.

(** ** [std::set<T>] *)

(** A [std::set<T>] is represented by its elements in iteration order,
    which is strictly ascending for [std::less<T>] ([set_ordered]).  The
    properties below do not depend on the order, so they are stated for
    every list. *)
Definition std_set (T : value_kind) : Type := list (value_type T).

Fixpoint set_ordered {T : value_kind} (s : std_set T) : bool :=
  match s with
  | [] => true
  | x :: s' =>
      match s' with
      | [] => true
      | y :: _ => value_ltb T x y && set_ordered s'
      end
  end.

(** [s.size()]. *)
Definition set_size {T : value_kind} (s : std_set T) : Z :=
  Z.of_nat (length s).

(** Two keys are equivalent when neither is less than the other. *)
Definition key_equiv (T : value_kind) (a b : value_type T) : bool :=
  negb (value_ltb T a b) && negb (value_ltb T b a).

(** [s.find(v) != s.end()]. *)
Definition set_contains {T : value_kind} (v : value_type T) (s : std_set T) : bool :=
  existsb (key_equiv T v) s.

(** ** Failures *)

(** Modelled from the spec: the [THROW] macro and [VW::vw_exception] of
    [vw_exception.h] are not among the sources; [THROW(msg)] raises a
    labelled failure that carries the message [msg]. *)
Record vw_exception : Set := VwException { what : string }.

Inductive result (A : Type) : Type :=
  | Returned (a : A)
  | Thrown (e : vw_exception).
Arguments Returned {A} a.
Arguments Thrown {A} e.

Definition THROW {A : Type} (msg : string) : result A :=
  Thrown (VwException msg).

#[global] Instance result_ret : MRet result := fun A a => Returned a.

#[global] Instance result_bind : MBind result := fun A B k m =>
  match m with
  | Returned a => k a
  | Thrown e => Thrown e
  end.

(** The built-in [a && b]: [b] is evaluated only when [a] returned true. *)
Definition and_then (a b : result bool) : result bool :=
  a ≫= λ x : bool, if x then b else mret false.

Infix "&&&" := and_then (at level 40, left associativity).

(** The two messages of [typed_option]; the specification calls the
    failures MissingValue and MissingDefault. *)
Definition missing_value_msg : string :=
  "typed_option does not contain value. use value_supplied to check if value exists.".

Definition missing_default_msg : string :=
  "typed_option does not contain default value. use default_value_supplied to check if default value exists.".

Definition MissingValue : vw_exception := VwException missing_value_msg.
Definition MissingDefault : vw_exception := VwException missing_default_msg.

(** ** [base_option] and [typed_option<T>] *)

(** [size_t] is an unbounded non-negative integer here; only its equality
    is used. *)
Definition size_t : Set := Z.

Record base_option : Type := BaseOption {
  m_name : string;
  m_type_hash : size_t;
  m_help : string;
  m_short_name : string;
  m_keep : bool;
  m_necessary : bool;
  m_allow_override : bool;
  m_hidden_from_help : bool;
  m_one_of_err : string
}.

Record typed_option (T : value_kind) : Type := TypedOption {
  base :> base_option;
  m_value : option (value_type T);
  m_default_value : option (value_type T);
  m_one_of : std_set T
}.
Arguments TypedOption {T} base m_value m_default_value m_one_of.
Arguments base {T} _.
Arguments m_value {T} _.
Arguments m_default_value {T} _.
Arguments m_one_of {T} _.

(** Assignments to single members. *)
Definition with_one_of_err (err : string) (b : base_option) : base_option :=
  {| m_name := m_name b; m_type_hash := m_type_hash b; m_help := m_help b;
     m_short_name := m_short_name b; m_keep := m_keep b;
     m_necessary := m_necessary b; m_allow_override := m_allow_override b;
     m_hidden_from_help := m_hidden_from_help b; m_one_of_err := err |}.

Definition with_value {T} (p : option (value_type T)) (self : typed_option T) : typed_option T :=
  {| base := base self; m_value := p;
     m_default_value := m_default_value self; m_one_of := m_one_of self |}.

Definition with_base {T} (b : base_option) (self : typed_option T) : typed_option T :=
  {| base := b; m_value := m_value self;
     m_default_value := m_default_value self; m_one_of := m_one_of self |}.

(** [base_option(std::string name, size_t type_hash)] with the default
    member initialisers. *)
Definition base_option_new (name : string) (type_hash : size_t) : base_option :=
  {| m_name := name; m_type_hash := type_hash; m_help := ""; m_short_name := "";
     m_keep := false; m_necessary := false; m_allow_override := false;
     m_hidden_from_help := false; m_one_of_err := "" |}.

(** [typed_option(const std::string& name)].  [hash_code T] stands for
    [typeid(T).hash_code()], which the implementation chooses. *)
Definition typed_option_new (hash_code : value_kind -> size_t) (T : value_kind)
    (name : string) : typed_option T :=
  {| base := base_option_new name (hash_code T);
     m_value := None; m_default_value := None; m_one_of := [] |}.

Section TypedOption.
Context {T : value_kind}.
Implicit Types (self : typed_option T) (value : value_type T).

(** [set_default_value]. *)
Definition set_default_value value self : typed_option T :=
  {| base := base self; m_value := m_value self;
     m_default_value := Some value; m_one_of := m_one_of self |}.

(** [default_value_supplied]. *)
Definition default_value_supplied self : bool :=
  match m_default_value self with Some _ => true | None => false end.

(** [default_value]. *)
Definition default_value self : result (value_type T) :=
  match m_default_value self with
  | Some v => mret v
  | None => THROW missing_default_msg
  end.

(** [value_supplied]. *)
Definition value_supplied self : bool :=
  match m_value self with Some _ => true | None => false end.

(** [T value() const]. *)
Definition value self : result (value_type T) :=
  match m_value self with
  | Some v => mret v
  | None => THROW missing_value_msg
  end.

(** [set_one_of] and [one_of]. *)
Definition set_one_of (one_of_set : std_set T) self : typed_option T :=
  {| base := base self; m_value := m_value self;
     m_default_value := m_default_value self; m_one_of := one_of_set |}.

Definition one_of self : std_set T := m_one_of self.
End TypedOption.

(** ** [invalid_choice_error] *)

(** [std::to_string] on the four integer types, and the rendering of an
    integer by [{}] of [fmt]: the decimal numeral, with [-] when negative. *)
Definition to_string (z : Z) : string := NilZero.string_of_int (Z.to_int z).

(** [fmt::join(range, sep)] once each element has been rendered. *)
Definition join (sep : string) (rendered : list string) : string :=
  String.concat sep rendered.

(** The overload [invalid_choice_error(const std::string&)], given the
    option's name and the rendering of the elements of [m_one_of]. *)
Definition invalid_choice_error_string (name : string) (choices : list string)
    (value : string) : string :=
  "Error: '" +:+ value +:+ "' is not a valid choice for option --" +:+ name
  +:+ ". Please select from {" +:+ join ", " choices +:+ "}".

(** The overload selected for an argument of type [T]: the [std::string]
    one for [Str], the four integer ones (which forward
    [std::to_string(value)] to it), and the template returning the empty
    string for [bool], [float] and [std::vector<std::string>]. *)
Definition invalid_choice_error {T : value_kind} :
    typed_option T -> value_type T -> string :=
  match T return typed_option T -> value_type T -> string with
  | Str => fun self value =>
      invalid_choice_error_string (m_name self) (m_one_of self) value
  | UInt32 | UInt64 | Int64 | Int32 => fun self value =>
      invalid_choice_error_string (m_name self) (map to_string (m_one_of self))
        (to_string value)
  | Bool | Float | StrVec => fun _ _ => ""
  end.

(** The kinds for which a message is composed. *)
Definition has_choice_message (T : value_kind) : bool :=
  match T with
  | Str | UInt32 | UInt64 | Int64 | Int32 => true
  | Bool | Float | StrVec => false
  end.

(** The rendering of one element of [m_one_of] in that message. *)
Definition render (T : value_kind) : value_type T -> string :=
  match T return value_type T -> string with
  | Str => fun s => s
  | UInt32 | UInt64 | Int64 | Int32 => to_string
  | Bool | Float | StrVec => fun _ => ""
  end.

(** ** Assigning a value *)

(** [typed_option& value(T value, bool called_from_add_and_parse)].  The
    virtual [value_set_callback] is the parameter [callback]; it acts on a
    state [S] outside the option. *)
Definition value_with {T : value_kind} {S : Type}
    (callback : value_type T -> bool -> S -> S)
    (value : value_type T) (called_from_add_and_parse : bool)
    (self : typed_option T) (st : S) : typed_option T * S :=
  let self := with_value (Some value) self in
  let st := callback value called_from_add_and_parse st in
  let self :=
    if (0 <? set_size (m_one_of self)) && negb (set_contains value (m_one_of self))
    then with_base (with_one_of_err (invalid_choice_error self value) self) self
    else self in
  (self, st).

(** [typed_option<T>::value_set_callback]: a no-op. *)
Definition noop_callback {T : value_kind} {S : Type}
    (_ : value_type T) (_ : bool) (st : S) : S := st.

(** The setter on an object whose dynamic type is [typed_option<T>]. *)
Definition set_value {T : value_kind} (value : value_type T)
    (called_from_add_and_parse : bool) (self : typed_option T) : typed_option T :=
  fst (value_with noop_callback value called_from_add_and_parse self tt).

(** ** [typed_option_with_location<T>] *)

Definition addr : Set := positive.

Record memory (T : value_kind) : Type := Memory {
  cells : gmap positive (value_type T);
  stores : list (addr * value_type T)
}.
Arguments Memory {T} cells stores.
Arguments cells {T} _.
Arguments stores {T} _.

(** [*p = v]: the cell is overwritten and the store is logged. *)
Definition store {T} (p : addr) (v : value_type T) (mem : memory T) : memory T :=
  {| cells := <[p := v]> (cells mem); stores := stores mem ++ [(p, v)] |}.

Definition load {T} (p : addr) (mem : memory T) : option (value_type T) :=
  cells mem !! p.

(** [m_location] is [None] for [nullptr]. *)
Record typed_option_with_location (T : value_kind) : Type := LocatedOption {
  option_part :> typed_option T;
  m_location : option addr
}.
Arguments LocatedOption {T} option_part m_location.
Arguments option_part {T} _.
Arguments m_location {T} _.

(** [typed_option_with_location(const std::string& name, T& location)]. *)
Definition typed_option_with_location_new (hash_code : value_kind -> size_t)
    (T : value_kind) (name : string) (location : addr) : typed_option_with_location T :=
  {| option_part := typed_option_new hash_code T name; m_location := Some location |}.

(** The override of [value_set_callback]. *)
Definition value_set_callback {T} (location : option addr) (value : value_type T)
    (called_from_add_and_parse : bool) (mem : memory T) : memory T :=
  match location with
  | Some p => if called_from_add_and_parse then store p value mem else mem
  | None => mem
  end.

(** The setter on an object whose dynamic type is
    [typed_option_with_location<T>]. *)
Definition located_set_value {T} (value : value_type T)
    (called_from_add_and_parse : bool) (self : typed_option_with_location T)
    (mem : memory T) : typed_option_with_location T * memory T :=
  let '(o, mem') :=
    value_with (value_set_callback (m_location self)) value
      called_from_add_and_parse (option_part self) mem in
  ({| option_part := o; m_location := m_location self |}, mem').

(** A sequence of setter calls, each with its own flag. *)
Fixpoint located_set_values {T} (calls : list (value_type T * bool))
    (self : typed_option_with_location T) (mem : memory T) :
    typed_option_with_location T * memory T :=
  match calls with
  | [] => (self, mem)
  | (v, flag) :: calls' =>
      let '(self', mem') := located_set_value v flag self mem in
      located_set_values calls' self' mem'
  end.

(** ** Equality operators *)

(** [operator==(const typed_option<T>&, const typed_option<T>&)].  The
    conjuncts are evaluated from left to right and [default_value()] can
    throw; whichever of its two calls runs first, the failure is the same. *)
Definition typed_option_eq {T} (lhs rhs : typed_option T) : result bool :=
  mret (String.eqb (m_name lhs) (m_name rhs))
  &&& mret (Z.eqb (m_type_hash lhs) (m_type_hash rhs))
  &&& mret (String.eqb (m_help lhs) (m_help rhs))
  &&& mret (String.eqb (m_short_name lhs) (m_short_name rhs))
  &&& mret (Bool.eqb (m_keep lhs) (m_keep rhs))
  &&& (l ← default_value lhs; r ← default_value rhs; mret (value_eqb T l r))
  &&& mret (Bool.eqb (m_necessary lhs) (m_necessary rhs)).

(** [operator!=] on [typed_option<T>]. *)
Definition typed_option_neq {T} (lhs rhs : typed_option T) : result bool :=
  b ← typed_option_eq lhs rhs; mret (negb b).

(** [operator==(const base_option&, const base_option&)]. *)
Definition base_option_eq (lhs rhs : base_option) : bool :=
  String.eqb (m_name lhs) (m_name rhs)
  && Z.eqb (m_type_hash lhs) (m_type_hash rhs)
  && String.eqb (m_help lhs) (m_help rhs)
  && String.eqb (m_short_name lhs) (m_short_name rhs)
  && Bool.eqb (m_keep lhs) (m_keep rhs)
  && Bool.eqb (m_necessary lhs) (m_necessary rhs).

Definition base_option_neq (lhs rhs : base_option) : bool :=
  negb (base_option_eq lhs rhs).

(** ** [typed_option_visitor] *)

(** A visitor owns a state [S]; each [visit] overload receives the option
    by reference, so it returns the option along with the new state. *)
Definition visit_fn (S : Type) (T : value_kind) : Type :=
  typed_option T -> S -> typed_option T * S.

Record typed_option_visitor (S : Type) : Type := Visitor {
  visit_uint32 : visit_fn S UInt32;
  visit_uint64 : visit_fn S UInt64;
  visit_int64 : visit_fn S Int64;
  visit_int32 : visit_fn S Int32;
  visit_bool : visit_fn S Bool;
  visit_float : visit_fn S Float;
  visit_string : visit_fn S Str;
  visit_string_vector : visit_fn S StrVec
}.
Arguments Visitor {S}.
Arguments visit_uint32 {S} _.
Arguments visit_uint64 {S} _.
Arguments visit_int64 {S} _.
Arguments visit_int32 {S} _.
Arguments visit_bool {S} _.
Arguments visit_float {S} _.
Arguments visit_string {S} _.
Arguments visit_string_vector {S} _.

(** The empty bodies of the base struct. *)
Definition visit_nothing {S : Type} {T : value_kind} : visit_fn S T :=
  fun option st => (option, st).

Definition default_visitor (S : Type) : typed_option_visitor S :=
  Visitor visit_nothing visit_nothing visit_nothing visit_nothing
          visit_nothing visit_nothing visit_nothing visit_nothing.

(** [visitor.visit(option)] for an argument of static type
    [typed_option<T>&]: overload resolution on [T]. *)
Definition visit {S : Type} (visitor : typed_option_visitor S) (T : value_kind) :
    visit_fn S T :=
  match T return visit_fn S T with
  | UInt32 => visit_uint32 visitor
  | UInt64 => visit_uint64 visitor
  | Int64 => visit_int64 visitor
  | Int32 => visit_int32 visitor
  | Bool => visit_bool visitor
  | Float => visit_float visitor
  | Str => visit_string visitor
  | StrVec => visit_string_vector visitor
  end.

(** [void accept(typed_option_visitor& visitor) override]. *)
Definition accept {S : Type} {T : value_kind} (self : typed_option T)
    (visitor : typed_option_visitor S) (st : S) : typed_option T * S :=
  visit visitor T self st.

(** A derived visitor that overrides the overload for [T] alone. *)
Definition override {S : Type} (T : value_kind) (f : visit_fn S T)
    (visitor : typed_option_visitor S) : typed_option_visitor S :=
  match T return visit_fn S T -> typed_option_visitor S with
  | UInt32 => fun f => Visitor f (visit_uint64 visitor) (visit_int64 visitor)
      (visit_int32 visitor) (visit_bool visitor) (visit_float visitor)
      (visit_string visitor) (visit_string_vector visitor)
  | UInt64 => fun f => Visitor (visit_uint32 visitor) f (visit_int64 visitor)
      (visit_int32 visitor) (visit_bool visitor) (visit_float visitor)
      (visit_string visitor) (visit_string_vector visitor)
  | Int64 => fun f => Visitor (visit_uint32 visitor) (visit_uint64 visitor) f
      (visit_int32 visitor) (visit_bool visitor) (visit_float visitor)
      (visit_string visitor) (visit_string_vector visitor)
  | Int32 => fun f => Visitor (visit_uint32 visitor) (visit_uint64 visitor)
      (visit_int64 visitor) f (visit_bool visitor) (visit_float visitor)
      (visit_string visitor) (visit_string_vector visitor)
  | Bool => fun f => Visitor (visit_uint32 visitor) (visit_uint64 visitor)
      (visit_int64 visitor) (visit_int32 visitor) f (visit_float visitor)
      (visit_string visitor) (visit_string_vector visitor)
  | Float => fun f => Visitor (visit_uint32 visitor) (visit_uint64 visitor)
      (visit_int64 visitor) (visit_int32 visitor) (visit_bool visitor) f
      (visit_string visitor) (visit_string_vector visitor)
  | Str => fun f => Visitor (visit_uint32 visitor) (visit_uint64 visitor)
      (visit_int64 visitor) (visit_int32 visitor) (visit_bool visitor)
      (visit_float visitor) f (visit_string_vector visitor)
  | StrVec => fun f => Visitor (visit_uint32 visitor) (visit_uint64 visitor)
      (visit_int64 visitor) (visit_int32 visitor) (visit_bool visitor)
      (visit_float visitor) (visit_string visitor) f
  end f.

(** Instrumentation: every overload of [traced visitor] first appends its
    own kind to a log of invocations, then runs the overload of [visitor]. *)
Definition logged {S : Type} {T : value_kind} (f : visit_fn S T) :
    visit_fn (S * list value_kind) T :=
  fun option st =>
    let '(option', s') := f option (fst st) in
    (option', (s', snd st ++ [T])).

Definition traced {S : Type} (visitor : typed_option_visitor S) :
    typed_option_visitor (S * list value_kind) :=
  Visitor (logged (visit_uint32 visitor)) (logged (visit_uint64 visitor))
          (logged (visit_int64 visitor)) (logged (visit_int32 visitor))
          (logged (visit_bool visitor)) (logged (visit_float visitor))
          (logged (visit_string visitor)) (logged (visit_string_vector visitor)).

(** ** Predicates of the statements *)

(** [sub] occurs in [s]. *)
Definition occurs_in (sub s : string) : Prop :=
  exists pre post : string, s = pre +:+ sub +:+ post.

(** The stores of a log that hit the cell [p]. *)
Definition stores_to {T} (p : addr) (log : list (addr * value_type T)) :
    list (value_type T) :=
  map snd (List.filter (fun s => Pos.eqb (fst s) p) log).

(** The values of the calls that carry the flag. *)
Definition flagged {T} (calls : list (value_type T * bool)) : list (value_type T) :=
  map fst (List.filter (fun c => snd c) calls).

(** The mutating member functions of [typed_option<T>], as data, and a
    sequence of such calls on one object. *)
Inductive member_call (T : value_kind) : Type :=
  | CallValue (value : value_type T) (called_from_add_and_parse : bool)
  | CallSetOneOf (one_of_set : std_set T)
  | CallSetDefaultValue (value : value_type T).
Arguments CallValue {T} value called_from_add_and_parse.
Arguments CallSetOneOf {T} one_of_set.
Arguments CallSetDefaultValue {T} value.

Definition call {T} (c : member_call T) (self : typed_option T) : typed_option T :=
  match c with
  | CallValue v flag => set_value v flag self
  | CallSetOneOf s => set_one_of s self
  | CallSetDefaultValue v => set_default_value v self
  end.

Definition call_all {T} (cs : list (member_call T)) (self : typed_option T) :
    typed_option T :=
  fold_left (fun o c => call c o) cs self.

(** Whether [v == v] can fail: only for the NaN of [float]. *)
Definition is_nan (T : value_kind) : value_type T -> bool :=
  match T return value_type T -> bool with
  | Float => fun x => match x with S754_nan => true | _ => false end
  | _ => fun _ => false
  end.

(** ** Sample objects *)

(** One admissible choice of [typeid(T).hash_code()]. *)
Definition sample_hash_code (T : value_kind) : size_t :=
  match T with
  | UInt32 => 1 | UInt64 => 2 | Int64 => 3 | Int32 => 4
  | Bool => 5 | Float => 6 | Str => 7 | StrVec => 8
  end.

(** The option of the end-to-end scenario: [typed_option<int32_t>] named
    [batch-size], default 32, choices 16, 32 and 64. *)
Definition batch_size : typed_option Int32 :=
  set_one_of (T := Int32) [16; 32; 64]
    (set_default_value (T := Int32) 32 (typed_option_new sample_hash_code Int32 "batch-size")).

(** A [typed_option<bool>] restricted to the single choice [true]. *)
Definition only_true : typed_option Bool :=
  set_one_of (T := Bool) [true] (typed_option_new sample_hash_code Bool "quiet").

(** Two options that never received a default value. *)
Definition alpha : typed_option Str := typed_option_new sample_hash_code Str "alpha".
Definition beta : typed_option Str := typed_option_new sample_hash_code Str "beta".

(** A located [typed_option<int32_t>] bound to the cell 1, which holds 0. *)
Definition passes : typed_option_with_location Int32 :=
  typed_option_with_location_new sample_hash_code Int32 "passes" 1%positive.

Definition initial_memory : memory Int32 :=
  {| cells := {[ 1%positive := 0 ]}; stores := [] |}.

(** ** Further definitions *)

(** [static size_t type_hash()]. *)
Definition type_hash (hash_code : value_kind -> size_t) (T : value_kind) : size_t :=
  hash_code T.

(** The arguments of the calls of each member function in a sequence, in
    call order. *)
Definition assigned_values {T} (cs : list (member_call T)) : list (value_type T) :=
  flat_map (fun c => match c with CallValue v _ => [v] | _ => [] end) cs.

Definition assigned_defaults {T} (cs : list (member_call T)) : list (value_type T) :=
  flat_map (fun c => match c with CallSetDefaultValue v => [v] | _ => [] end) cs.

Definition assigned_choice_sets {T} (cs : list (member_call T)) : list (std_set T) :=
  flat_map (fun c => match c with CallSetOneOf s => [s] | _ => [] end) cs.

Definition is_default_call {T} (c : member_call T) : bool :=
  match c with CallSetDefaultValue _ => true | _ => false end.

(** The setter calls made on a located option, seen as calls on its
    [typed_option<T>] part. *)
Definition value_calls {T} (calls : list (value_type T * bool)) : list (member_call T) :=
  map (fun c => CallValue (fst c) (snd c)) calls.

(** The last element of a list, or a fallback. *)
Definition last_or {A : Type} (l : list A) (fallback : option A) : option A :=
  match last l with
  | Some a => Some a
  | None => fallback
  end.

(** The located option [passes] restricted to the choices 1, 2 and 3. *)
Definition passes_limited : typed_option_with_location Int32 :=
  {| option_part := set_one_of (T := Int32) [1; 2; 3] passes;
     m_location := m_location passes |}.

(** * Properties *)

(** ** Auxiliary facts *)

Lemma append_assoc (a b c : string) : (a +:+ b) +:+ c = a +:+ (b +:+ c).
Proof.
  induction a as [|ch a IH]; [reflexivity|].
  change (String ch ((a +:+ b) +:+ c) = String ch (a +:+ (b +:+ c))).
  now rewrite IH.
Qed.

Lemma occurs_in_prefixed (pre sub post : string) : occurs_in sub (pre +:+ sub +:+ post).
Proof. now exists pre, post. Qed.

Lemma occurs_in_append_l (sub a s : string) : occurs_in sub s -> occurs_in sub (a +:+ s).
Proof.
  intros (pre & post & ->). exists (a +:+ pre), post. now rewrite append_assoc.
Qed.

Lemma vector_eqb_eq (a b : list string) : vector_eqb a b = true <-> a = b.
Proof.
  revert b; induction a as [|x a IH]; intros [|y b]; simpl; split;
    try discriminate; try reflexivity.
  - intros [Hx Hab]%andb_true_iff. apply String.eqb_eq in Hx. apply IH in Hab.
    now subst.
  - intros [= -> ->]. rewrite String.eqb_refl. now apply IH.
Qed.

(** Except on [float], [operator==] decides identity. *)
Lemma value_eqb_eq (T : value_kind) (a b : value_type T) :
  T <> Float -> value_eqb T a b = true <-> a = b.
Proof.
  destruct T; simpl; intros HT; try contradiction;
    auto using Z.eqb_eq, String.eqb_eq, vector_eqb_eq.
  destruct a, b; simpl; split; congruence.
Qed.

(** [v == v] holds for every value but NaN. *)
Lemma value_eqb_refl (T : value_kind) (v : value_type T) :
  is_nan T v = false -> value_eqb T v v = true.
Proof.
  destruct T; simpl; intros Hnan;
    try apply Z.eqb_refl; try apply String.eqb_refl;
    try (now apply vector_eqb_eq); try (now destruct v).
  destruct v as [s|s| |s m e]; try discriminate; unfold SFeqb; simpl.
  - reflexivity.
  - now destruct s.
  - rewrite Z.compare_refl, Pos.compare_cont_refl. now destruct s.
Qed.

(** The members the setter leaves alone. *)
Lemma value_with_frame {T S} (callback : value_type T -> bool -> S -> S)
    (v : value_type T) (flag : bool) (self : typed_option T) (st : S) :
  let self' := fst (value_with callback v flag self st) in
  m_value self' = Some v /\
  m_default_value self' = m_default_value self /\
  m_one_of self' = m_one_of self /\
  m_name self' = m_name self /\
  m_type_hash self' = m_type_hash self /\
  m_help self' = m_help self /\
  m_short_name self' = m_short_name self /\
  m_keep self' = m_keep self /\
  m_necessary self' = m_necessary self /\
  m_allow_override self' = m_allow_override self /\
  m_hidden_from_help self' = m_hidden_from_help self.
Proof.
  unfold value_with; simpl.
  destruct ((0 <? _) && negb _); simpl; repeat split; reflexivity.
Qed.

(** The state outside the option is exactly what the callback makes it. *)
Lemma value_with_state {T S} (callback : value_type T -> bool -> S -> S)
    (v : value_type T) (flag : bool) (self : typed_option T) (st : S) :
  snd (value_with callback v flag self st) = callback v flag st.
Proof. reflexivity. Qed.

(** [m_one_of_err] after the setter, by cases on the check. *)
Lemma value_with_one_of_err {T S} (callback : value_type T -> bool -> S -> S)
    (v : value_type T) (flag : bool) (self : typed_option T) (st : S) :
  m_one_of_err (fst (value_with callback v flag self st)) =
  if (0 <? set_size (m_one_of self)) && negb (set_contains v (m_one_of self))
  then invalid_choice_error (with_value (Some v) self) v
  else m_one_of_err self.
Proof.
  unfold value_with; simpl.
  destruct ((0 <? _) && negb _); reflexivity.
Qed.

(** Reading back through the two getters. *)
Lemma value_with_returns {T S} (callback : value_type T -> bool -> S -> S)
    (v : value_type T) (flag : bool) (self : typed_option T) (st : S) :
  value (fst (value_with callback v flag self st)) = Returned v.
Proof.
  unfold value. now destruct (value_with_frame callback v flag self st) as [-> _].
Qed.

Lemma value_with_supplied {T S} (callback : value_type T -> bool -> S -> S)
    (v : value_type T) (flag : bool) (self : typed_option T) (st : S) :
  value_supplied (fst (value_with callback v flag self st)) = true.
Proof.
  unfold value_supplied.
  now destruct (value_with_frame callback v flag self st) as [-> _].
Qed.

Lemma located_set_value_option {T} (v : value_type T) (flag : bool)
    (self : typed_option_with_location T) (mem : memory T) :
  option_part (fst (located_set_value v flag self mem)) =
  fst (value_with (value_set_callback (m_location self)) v flag self mem).
Proof.
  unfold located_set_value.
  now destruct (value_with _ v flag self mem).
Qed.

Lemma located_set_value_memory {T} (v : value_type T) (flag : bool)
    (self : typed_option_with_location T) (mem : memory T) :
  snd (located_set_value v flag self mem) =
  value_set_callback (m_location self) v flag mem.
Proof. reflexivity. Qed.

Lemma located_set_value_location {T} (v : value_type T) (flag : bool)
    (self : typed_option_with_location T) (mem : memory T) :
  m_location (fst (located_set_value v flag self mem)) = m_location self.
Proof. reflexivity. Qed.

Lemma missing_failures_differ : MissingValue <> MissingDefault.
Proof. discriminate. Qed.

Lemma invalid_choice_error_render {T} (self : typed_option T) (v : value_type T) :
  has_choice_message T = true ->
  invalid_choice_error self v =
  invalid_choice_error_string (m_name self) (map (render T) (m_one_of self)) (render T v).
Proof.
  destruct T; simpl; intros HT; try discriminate; try reflexivity.
  unfold std_set, value_type. now rewrite map_id.
Qed.

Lemma invalid_choice_error_string_nonempty (name : string) (choices : list string)
    (value : string) :
  invalid_choice_error_string name choices value <> "".
Proof. discriminate. Qed.

Lemma invalid_choice_error_string_name (name : string) (choices : list string)
    (value : string) :
  occurs_in name (invalid_choice_error_string name choices value).
Proof.
  unfold invalid_choice_error_string.
  do 3 apply occurs_in_append_l. apply occurs_in_prefixed with (pre := "").
Qed.

Lemma invalid_choice_error_string_value (name : string) (choices : list string)
    (value : string) :
  occurs_in value (invalid_choice_error_string name choices value).
Proof.
  unfold invalid_choice_error_string.
  apply occurs_in_append_l. apply occurs_in_prefixed with (pre := "").
Qed.

Lemma invalid_choice_error_string_choices (name : string) (choices : list string)
    (value : string) :
  occurs_in ("{" +:+ join ", " choices +:+ "}")
            (invalid_choice_error_string name choices value).
Proof.
  unfold invalid_choice_error_string.
  exists ("Error: '" +:+ value +:+ "' is not a valid choice for option --"
          +:+ name +:+ ". Please select from "), "".
  now rewrite !append_assoc.
Qed.

(** ** C1: the message recorded for a rejected choice *)

(** C1, counterexample.  On [typed_option<bool>] restricted to the choice
    [true], assigning [false] violates a non-empty choice set, yet the
    recorded [m_one_of_err] is the empty string: overload resolution picks
    the template [invalid_choice_error], which returns [""]. *)
Lemma bool_choice_error_is_empty :
  0 < set_size (m_one_of only_true) /\
  set_contains (T := Bool) false (m_one_of only_true) = false /\
  m_one_of_err (set_value (T := Bool) false false only_true) = "".
Proof. repeat split. Qed.

(** C1, amended.  When the choice set is non-empty and the assigned value
    is not in it, [m_one_of_err] afterwards is, for [std::string] and the
    four integer types, a non-empty message that contains the option's
    name, the choice set (its elements joined by a comma and a space,
    between braces) and the value; for [bool], [float] and
    [std::vector<std::string>] it is the empty string. *)
Theorem one_of_error_after_rejected_choice (T : value_kind) (v : value_type T)
    (flag : bool) (self : typed_option T) :
  0 < set_size (m_one_of self) ->
  set_contains v (m_one_of self) = false ->
  let err := m_one_of_err (set_value v flag self) in
  if has_choice_message T
  then err <> "" /\
       occurs_in (m_name self) err /\
       occurs_in ("{" +:+ join ", " (map (render T) (m_one_of self)) +:+ "}") err /\
       occurs_in (render T v) err
  else err = "".
Proof.
  intros Hsize Hout err. subst err. unfold set_value.
  rewrite value_with_one_of_err, Hout.
  apply Z.ltb_lt in Hsize. rewrite Hsize. cbn [andb negb].
  destruct (has_choice_message T) eqn:HT.
  - rewrite invalid_choice_error_render by exact HT. cbn [with_value m_name base m_one_of].
    auto using invalid_choice_error_string_nonempty, invalid_choice_error_string_name,
      invalid_choice_error_string_choices, invalid_choice_error_string_value.
  - now destruct T.
Qed.

Lemma one_of_error_after_rejected_choice_witness :
  let err := m_one_of_err (set_value (T := Int32) 100 false batch_size) in
  err <> "" /\
  occurs_in "batch-size" err /\
  occurs_in "{16, 32, 64}" err /\
  occurs_in "100" err.
Proof.
  apply (one_of_error_after_rejected_choice Int32 100 false batch_size); reflexivity.
Defined.

(** The end-to-end scenario of the specification, evaluated. *)
Example batch_size_scenario :
  let self := set_value (T := Int32) 100 false batch_size in
  default_value self = Returned 32 /\
  value self = Returned 100 /\
  m_one_of_err self =
    "Error: '100' is not a valid choice for option --batch-size. Please select from {16, 32, 64}".
Proof. repeat split. Qed.

(** ** C4, C5, C7: presence of the value and of the default *)

(** C4.  For every value type [T] and every [v], after [value(v)] the
    option reports [value_supplied()] and [value()] returns [v]; this holds
    for a plain [typed_option<T>] and for one with a location alike. *)
Theorem value_after_set (T : value_kind) (v : value_type T) (flag : bool) :
  (forall self : typed_option T,
      value_supplied (set_value v flag self) = true /\
      value (set_value v flag self) = Returned v) /\
  (forall (self : typed_option_with_location T) (mem : memory T),
      value_supplied (fst (located_set_value v flag self mem)) = true /\
      value (fst (located_set_value v flag self mem)) = Returned v).
Proof.
  split.
  - intros self. unfold set_value.
    split; [apply value_with_supplied | apply value_with_returns].
  - intros self mem. rewrite located_set_value_option.
    split; [apply value_with_supplied | apply value_with_returns].
Qed.

(** C5.  With a non-empty choice set and a value [v] outside it, [value(v)]
    still stores [v]: afterwards [value_supplied()] is true and [value()]
    returns [v] instead of throwing; the default and the choice set are as
    before.  (The setter has no failing outcome: its body contains no
    [THROW].) *)
Theorem rejected_choice_is_stored (T : value_kind) (v : value_type T)
    (flag : bool) (self : typed_option T) :
  0 < set_size (m_one_of self) ->
  set_contains v (m_one_of self) = false ->
  let self' := set_value v flag self in
  m_value self' = Some v /\
  value_supplied self' = true /\
  value self' = Returned v /\
  m_default_value self' = m_default_value self /\
  m_one_of self' = m_one_of self.
Proof.
  intros _ _ self'. subst self'. unfold set_value, value_supplied, value.
  destruct (value_with_frame noop_callback v flag self tt) as (-> & -> & -> & _).
  repeat split.
Qed.

Lemma rejected_choice_is_stored_witness :
  let self' := set_value (T := Int32) 100 false batch_size in
  m_value self' = Some 100 /\
  value_supplied self' = true /\
  value self' = Returned 100 /\
  m_default_value self' = Some 32 /\
  m_one_of self' = [16; 32; 64].
Proof.
  apply (rejected_choice_is_stored Int32 100 false batch_size); reflexivity.
Defined.

(** C7.  A freshly constructed [typed_option<T>] has neither a value nor a
    default: both [..._supplied()] return false, [value()] throws the
    missing-value failure and [default_value()] the missing-default one,
    and the two failures are distinct.  The same holds of a freshly
    constructed [typed_option_with_location<T>]. *)
Theorem fresh_option_is_empty (hash_code : value_kind -> size_t) (T : value_kind)
    (name : string) (location : addr) :
  let self := typed_option_new hash_code T name in
  let located := typed_option_with_location_new hash_code T name location in
  (value_supplied self = false /\
   default_value_supplied self = false /\
   value self = Thrown MissingValue /\
   default_value self = Thrown MissingDefault) /\
  (value_supplied located = false /\
   default_value_supplied located = false /\
   value located = Thrown MissingValue /\
   default_value located = Thrown MissingDefault) /\
  MissingValue <> MissingDefault.
Proof. repeat split. discriminate. Qed.

(** ** C2, C6: the write-back of a located option *)

Lemma value_set_callback_bound {T} (p : addr) (v : value_type T) (flag : bool)
    (mem : memory T) :
  value_set_callback (Some p) v flag mem = if flag then store p v mem else mem.
Proof. reflexivity. Qed.

Lemma load_store_same {T} (p : addr) (v : value_type T) (mem : memory T) :
  load p (store p v mem) = Some v.
Proof. unfold load, store; simpl. apply lookup_insert_eq. Qed.

Lemma load_store_other {T} (p q : addr) (v : value_type T) (mem : memory T) :
  q <> p -> load q (store p v mem) = load q mem.
Proof. intros Hq. unfold load, store; simpl. now apply lookup_insert_ne. Qed.

Lemma flagged_cons {T} (v : value_type T) (flag : bool)
    (calls : list (value_type T * bool)) :
  flagged ((v, flag) :: calls) = if flag then v :: flagged calls else flagged calls.
Proof. unfold flagged; simpl. now destruct flag. Qed.

(** C2.  The contract stated above [typed_option_with_location] (the first
    set of the value is written to the location, otherwise a no-op) is
    broken by the code: on an option bound to the cell 1, [value(7, true)]
    followed by [value(9, true)] stores into the cell twice, and the cell
    ends up holding 9, the second value, not the first one supplied. *)
Lemma location_written_twice :
  m_location passes = Some 1%positive /\
  stores_to 1%positive
    (stores (snd (located_set_values (T := Int32) [(7, true); (9, true)]
                    passes initial_memory))) = [7; 9] /\
  load 1%positive
    (snd (located_set_values (T := Int32) [(7, true); (9, true)]
            passes initial_memory)) = Some 9.
Proof.
  split; [reflexivity|]. split; [reflexivity|].
  cbn [located_set_values located_set_value value_with passes
       typed_option_with_location_new m_location option_part fst snd].
  rewrite !value_set_callback_bound. apply (load_store_same (T := Int32)).
Qed.

(** The stores that the code as written performs over a sequence of
    [value(v, flag)] calls on an option bound to the cell [p]: one per
    call whose flag is true, of that call's value, in call order, and none
    for a call whose flag is false; every other cell is left alone. *)
Theorem location_written_by_flagged_calls (T : value_kind)
    (calls : list (value_type T * bool)) (self : typed_option_with_location T)
    (mem : memory T) (p : addr) :
  m_location self = Some p ->
  let mem' := snd (located_set_values calls self mem) in
  stores mem' = stores mem ++ map (fun v => (p, v)) (flagged calls) /\
  load p mem' = match last (flagged calls) with
                | Some v => Some v
                | None => load p mem
                end /\
  (forall q : addr, q <> p -> load q mem' = load q mem) /\
  ((length (flagged calls) <= 1)%nat ->
   (length (stores mem') <= length (stores mem) + 1)%nat).
Proof.
  intros Hp mem'.
  assert (Hgen : stores mem' = stores mem ++ map (fun v => (p, v)) (flagged calls) /\
                 load p mem' = match last (flagged calls) with
                               | Some v => Some v
                               | None => load p mem
                               end /\
                 (forall q : addr, q <> p -> load q mem' = load q mem)).
  { subst mem'. revert self mem Hp.
    induction calls as [|[v flag] calls IH]; intros self mem Hp.
    - cbn. rewrite app_nil_r. auto.
    - cbn [located_set_values].
      destruct (located_set_value v flag self mem) as [self1 mem1] eqn:Hstep.
      assert (Hmem1 : mem1 = if flag then store p v mem else mem).
      { change mem1 with (snd (self1, mem1)). rewrite <- Hstep.
        rewrite located_set_value_memory, Hp. apply value_set_callback_bound. }
      assert (Hp1 : m_location self1 = Some p).
      { change self1 with (fst (self1, mem1)). rewrite <- Hstep.
        now rewrite located_set_value_location. }
      destruct (IH self1 mem1 Hp1) as (Hlog & Hload & Hframe).
      rewrite flagged_cons. destruct flag; subst mem1.
      + split; [|split].
        * rewrite Hlog. cbn [store stores map]. now rewrite <- app_assoc.
        * rewrite Hload. destruct (flagged calls) as [|w ws] eqn:Hfl.
          -- cbn. apply load_store_same.
          -- change (last (v :: w :: ws)) with (last (w :: ws)).
             destruct (last (w :: ws)) eqn:Hlast; [reflexivity|].
             now apply last_None in Hlast.
        * intros q Hq. rewrite Hframe by exact Hq. now apply load_store_other.
      + auto. }
  destruct Hgen as (Hlog & Hload & Hframe). repeat split; try assumption.
  intros Hle. rewrite Hlog, length_app, length_map. lia.
Qed.

Lemma location_written_by_flagged_calls_witness :
  let mem' := snd (located_set_values (T := Int32) [(7, true); (9, false)]
                     passes initial_memory) in
  stores mem' = [(1%positive, 7)] /\
  load 1%positive mem' = Some 7 /\
  (forall q : addr, q <> 1%positive -> load q mem' = load q initial_memory) /\
  ((1 <= 1)%nat -> (length (stores mem') <= 1)%nat).
Proof.
  apply (location_written_by_flagged_calls Int32 [(7, true); (9, false)]
           passes initial_memory 1%positive).
  reflexivity.
Defined.

(** C6.  On an option bound to the cell [loc], [value(v, true)] makes
    [loc] hold [v]; a following [value(v2, false)] leaves the memory as it
    is, so [loc] still holds [v], while [value()] returns [v2]. *)
Theorem first_parse_wins (T : value_kind) (v v2 : value_type T)
    (self : typed_option_with_location T) (mem : memory T) (loc : addr) :
  m_location self = Some loc ->
  let first := located_set_value v true self mem in
  let second := located_set_value v2 false (fst first) (snd first) in
  load loc (snd first) = Some v /\
  snd second = snd first /\
  load loc (snd second) = Some v /\
  value (fst second) = Returned v2.
Proof.
  intros Hloc first second.
  assert (Hfirst : snd first = store loc v mem).
  { subst first. now rewrite located_set_value_memory, Hloc. }
  assert (Hsecond : snd second = snd first).
  { subst second. rewrite located_set_value_memory.
    subst first. rewrite located_set_value_location, Hloc. reflexivity. }
  repeat split.
  - rewrite Hfirst. apply load_store_same.
  - exact Hsecond.
  - rewrite Hsecond, Hfirst. apply load_store_same.
  - subst second. rewrite located_set_value_option. apply value_with_returns.
Qed.

Lemma first_parse_wins_witness :
  let first := located_set_value (T := Int32) 7 true passes initial_memory in
  let second := located_set_value (T := Int32) 9 false (fst first) (snd first) in
  load 1%positive (snd first) = Some 7 /\
  snd second = snd first /\
  load 1%positive (snd second) = Some 7 /\
  value (fst second) = Returned 9.
Proof.
  apply (first_parse_wins Int32 7 9 passes initial_memory 1%positive).
  reflexivity.
Defined.

(** ** C8: visitor dispatch *)

Lemma visit_override_same {S} (T : value_kind) (f : visit_fn S T)
    (visitor : typed_option_visitor S) :
  visit (override T f visitor) T = f.
Proof. now destruct T. Qed.

Lemma visit_override_other {S} (T U : value_kind) (f : visit_fn S U)
    (visitor : typed_option_visitor S) :
  U <> T -> visit (override U f visitor) T = visit visitor T.
Proof. intros HU. destruct T, U; try reflexivity; now contradiction HU. Qed.

Lemma visit_traced {S} (T : value_kind) (visitor : typed_option_visitor S) :
  visit (traced visitor) T = logged (visit visitor T).
Proof. now destruct T. Qed.

(** C8.  For each of the eight value types [T], [accept] on a
    [typed_option<T>] runs the [visit] overload for [T] once and no other
    overload: under instrumentation the log of invocations grows by the
    single entry [T], and the outcome is that of the overload for [T].  A
    visitor that overrides only the overload for [U] is therefore run on
    options of type [U] and is a no-op on the seven other types, as is the
    base visitor on all eight. *)
Theorem accept_dispatches_once (S : Type) (T : value_kind) (self : typed_option T)
    (visitor : typed_option_visitor S) (st : S) (log : list value_kind) :
  accept self (traced visitor) (st, log) =
    (fst (visit visitor T self st), (snd (visit visitor T self st), log ++ [T])) /\
  accept self (default_visitor S) st = (self, st) /\
  (forall f : visit_fn S T,
      accept self (override T f (default_visitor S)) st = f self st) /\
  (forall (U : value_kind) (f : visit_fn S U),
      U <> T -> accept self (override U f (default_visitor S)) st = (self, st)).
Proof.
  unfold accept. repeat split.
  - rewrite visit_traced. unfold logged; simpl.
    now destruct (visit visitor T self st).
  - now destruct T.
  - intros f. now rewrite visit_override_same.
  - intros U f HU. rewrite visit_override_other by exact HU. now destruct T.
Qed.

Lemma accept_dispatches_once_witness :
  let bump : visit_fn nat Int32 := fun option n => (option, Datatypes.S n) in
  accept batch_size (traced (override Int32 bump (default_visitor nat))) (0%nat, []) =
    (batch_size, (1%nat, [Int32])) /\
  accept only_true (override Int32 bump (default_visitor nat)) 0%nat =
    (only_true, 0%nat).
Proof.
  intros bump. split.
  - pose proof (accept_dispatches_once nat Int32 batch_size
                  (override Int32 bump (default_visitor nat)) 0%nat [])
      as (H & _).
    exact H.
  - pose proof (accept_dispatches_once nat Bool only_true
                  (default_visitor nat) 0%nat [])
      as (_ & _ & _ & H).
    apply (H Int32 bump). discriminate.
Defined.

(** ** C3, C9: [operator==] on typed options *)

(** The value of [lhs == rhs] in every case. *)
Lemma typed_option_eq_cases {T} (lhs rhs : typed_option T) :
  typed_option_eq lhs rhs =
  if String.eqb (m_name lhs) (m_name rhs)
     && Z.eqb (m_type_hash lhs) (m_type_hash rhs)
     && String.eqb (m_help lhs) (m_help rhs)
     && String.eqb (m_short_name lhs) (m_short_name rhs)
     && Bool.eqb (m_keep lhs) (m_keep rhs)
  then match m_default_value lhs, m_default_value rhs with
       | Some l, Some r =>
           Returned (value_eqb T l r && Bool.eqb (m_necessary lhs) (m_necessary rhs))
       | _, _ => Thrown MissingDefault
       end
  else Returned false.
Proof.
  unfold typed_option_eq, default_value.
  destruct (String.eqb (m_name lhs) (m_name rhs)); [|reflexivity].
  destruct (Z.eqb (m_type_hash lhs) (m_type_hash rhs)); [|reflexivity].
  destruct (String.eqb (m_help lhs) (m_help rhs)); [|reflexivity].
  destruct (String.eqb (m_short_name lhs) (m_short_name rhs)); [|reflexivity].
  destruct (Bool.eqb (m_keep lhs) (m_keep rhs)); [|reflexivity].
  destruct (m_default_value lhs) as [l|], (m_default_value rhs) as [r|];
    try reflexivity.
  cbn. now destruct (value_eqb T l r).
Qed.

Lemma leading_fields_eqb {T} (lhs rhs : typed_option T) :
  String.eqb (m_name lhs) (m_name rhs)
  && Z.eqb (m_type_hash lhs) (m_type_hash rhs)
  && String.eqb (m_help lhs) (m_help rhs)
  && String.eqb (m_short_name lhs) (m_short_name rhs)
  && Bool.eqb (m_keep lhs) (m_keep rhs) = true <->
  m_name lhs = m_name rhs /\ m_type_hash lhs = m_type_hash rhs /\
  m_help lhs = m_help rhs /\ m_short_name lhs = m_short_name rhs /\
  m_keep lhs = m_keep rhs.
Proof.
  rewrite !andb_true_iff, !String.eqb_eq, Z.eqb_eq, Bool.eqb_true_iff. tauto.
Qed.

(** C3, counterexample.  Two [typed_option<std::string>] objects that agree
    on every listed member, default included (neither has one), and differ
    only in [m_one_of]: the comparison throws instead of yielding true. *)
Lemma equality_without_defaults_throws :
  let lhs := alpha in
  let rhs := set_one_of (T := Str) ["a"] alpha in
  m_name lhs = m_name rhs /\ m_type_hash lhs = m_type_hash rhs /\
  m_help lhs = m_help rhs /\ m_short_name lhs = m_short_name rhs /\
  m_keep lhs = m_keep rhs /\ m_necessary lhs = m_necessary rhs /\
  m_default_value lhs = m_default_value rhs /\
  typed_option_eq lhs rhs = Thrown MissingDefault.
Proof. repeat split. Qed.

(** A second way in which identical members fail to compare equal: the
    default of a [typed_option<float>] is NaN, and [NaN == NaN] is false. *)
Example nan_default_not_equal :
  let self := set_default_value (T := Float) S754_nan
                (typed_option_new sample_hash_code Float "l2") in
  typed_option_eq self self = Returned false.
Proof. reflexivity. Qed.

(** C3, amended.  Let both options have a default value set.  If they have
    identical [name], [type_hash], [help], [short_name], [keep],
    [necessary] and default value (for [float], one that is not NaN), then
    [operator==] returns true, whatever their [value], [one_of] and
    [one_of_err]; if any one of those members differs (for the default:
    the two defaults compare unequal under [operator==] of [T]), it
    returns false. *)
Theorem typed_option_eq_with_defaults (T : value_kind) (lhs rhs : typed_option T)
    (l r : value_type T) :
  m_default_value lhs = Some l ->
  m_default_value rhs = Some r ->
  (m_name lhs = m_name rhs /\ m_type_hash lhs = m_type_hash rhs /\
   m_help lhs = m_help rhs /\ m_short_name lhs = m_short_name rhs /\
   m_keep lhs = m_keep rhs /\ m_necessary lhs = m_necessary rhs /\
   l = r /\ is_nan T l = false ->
   typed_option_eq lhs rhs = Returned true) /\
  (m_name lhs <> m_name rhs \/ m_type_hash lhs <> m_type_hash rhs \/
   m_help lhs <> m_help rhs \/ m_short_name lhs <> m_short_name rhs \/
   m_keep lhs <> m_keep rhs \/ m_necessary lhs <> m_necessary rhs \/
   value_eqb T l r = false ->
   typed_option_eq lhs rhs = Returned false).
Proof.
  intros Hl Hr. rewrite typed_option_eq_cases, Hl, Hr. split.
  - intros (Hn & Hh & Hhe & Hs & Hk & Hnec & -> & Hnan).
    assert (Hlead := proj2 (leading_fields_eqb lhs rhs)
                       (conj Hn (conj Hh (conj Hhe (conj Hs Hk))))).
    rewrite Hlead, Hnec, value_eqb_refl by exact Hnan.
    now rewrite Bool.eqb_reflx.
  - intros Hdiff.
    destruct (_ && _ && _ && _ && Bool.eqb (m_keep lhs) (m_keep rhs)) eqn:Hlead;
      [|reflexivity].
    apply leading_fields_eqb in Hlead as (Hn & Hh & Hhe & Hs & Hk).
    destruct Hdiff as [H|[H|[H|[H|[H|[H|H]]]]]]; try contradiction.
    + apply Bool.eqb_false_iff in H. rewrite H. now rewrite andb_false_r.
    + now rewrite H.
Qed.

Lemma typed_option_eq_with_defaults_witness :
  typed_option_eq batch_size (set_value (T := Int32) 100 false batch_size) = Returned true /\
  typed_option_eq batch_size (set_default_value (T := Int32) 64 batch_size) = Returned false.
Proof.
  split.
  - apply (typed_option_eq_with_defaults Int32 batch_size
             (set_value (T := Int32) 100 false batch_size) 32 32);
      [reflexivity | reflexivity | repeat split].
  - apply (typed_option_eq_with_defaults Int32 batch_size
             (set_default_value (T := Int32) 64 batch_size) 32 64);
      [reflexivity | reflexivity | repeat right; reflexivity].
Defined.

(** C9, counterexample.  Neither option has a default value, yet the
    comparison returns false and does not throw: the names differ, so
    [&&] never evaluates [default_value()]. *)
Lemma equality_short_circuits_before_default :
  m_default_value alpha = None /\
  m_default_value beta = None /\
  typed_option_eq alpha beta = Returned false.
Proof. repeat split. Qed.

(** C9, amended.  [operator==] reads [default_value()] on both sides only
    after [name], [type_hash], [help], [short_name] and [keep] have all
    compared equal.  When they have and either operand has no default
    value, the comparison throws the missing-default failure rather than
    returning a boolean; when one of those five members differs, it
    returns false although a default is missing. *)
Theorem typed_option_eq_missing_default (T : value_kind) (lhs rhs : typed_option T) :
  m_default_value lhs = None \/ m_default_value rhs = None ->
  (m_name lhs = m_name rhs /\ m_type_hash lhs = m_type_hash rhs /\
   m_help lhs = m_help rhs /\ m_short_name lhs = m_short_name rhs /\
   m_keep lhs = m_keep rhs ->
   typed_option_eq lhs rhs = Thrown MissingDefault /\
   typed_option_neq lhs rhs = Thrown MissingDefault) /\
  (m_name lhs <> m_name rhs \/ m_type_hash lhs <> m_type_hash rhs \/
   m_help lhs <> m_help rhs \/ m_short_name lhs <> m_short_name rhs \/
   m_keep lhs <> m_keep rhs ->
   typed_option_eq lhs rhs = Returned false).
Proof.
  intros Hmissing. unfold typed_option_neq. rewrite typed_option_eq_cases. split.
  - intros Hsame. apply leading_fields_eqb in Hsame. rewrite Hsame.
    destruct Hmissing as [-> | ->]; [|destruct (m_default_value lhs)]; now split.
  - intros Hdiff.
    destruct (_ && _ && _ && _ && Bool.eqb (m_keep lhs) (m_keep rhs)) eqn:Hlead;
      [|reflexivity].
    apply leading_fields_eqb in Hlead. tauto.
Qed.

Lemma typed_option_eq_missing_default_witness :
  (typed_option_eq alpha (set_one_of (T := Str) ["a"] alpha) = Thrown MissingDefault /\
   typed_option_neq alpha (set_one_of (T := Str) ["a"] alpha) = Thrown MissingDefault) /\
  typed_option_eq alpha beta = Returned false.
Proof.
  split.
  - apply (typed_option_eq_missing_default Str alpha (set_one_of (T := Str) ["a"] alpha));
      [left; reflexivity | repeat split].
  - apply (typed_option_eq_missing_default Str alpha beta);
      [left; reflexivity | left; discriminate].
Defined.

(** ** C10: a recorded message is not cleared *)




(** Over any sequence of [value], [set_one_of] and [set_default_value]
    calls on an option of a type that has messages, a non-empty
    [m_one_of_err] stays non-empty. *)
Lemma one_of_error_survives {T} (cs : list (member_call T)) (self : typed_option T) :
  has_choice_message T = true ->
  m_one_of_err self <> "" ->
  m_one_of_err (call_all cs self) <> "".
Proof.
  intros HT. unfold call_all. revert self.
  induction cs as [|c cs IH]; intros self Herr; [exact Herr|].
  cbn [fold_left]. apply IH. destruct c as [v flag|s|v]; cbn [call]; try exact Herr.
  unfold set_value. rewrite value_with_one_of_err.
  destruct (_ && _); [|exact Herr].
  rewrite invalid_choice_error_render by exact HT.
  apply invalid_choice_error_string_nonempty.
Qed.

(** * Further properties of the code *)

(** ** Defaults, values and their independence *)

Lemma invalid_choice_error_ext {T} (a b : typed_option T) (v : value_type T) :
  m_name a = m_name b -> m_one_of a = m_one_of b ->
  invalid_choice_error a v = invalid_choice_error b v.
Proof. destruct T; simpl; intros Hn Ho; congruence. Qed.

(** The setter, written out by cases on the check of line 105. *)
Lemma set_value_cases {T} (v : value_type T) (flag : bool) (self : typed_option T) :
  set_value v flag self =
  if (0 <? set_size (m_one_of self)) && negb (set_contains v (m_one_of self))
  then with_base (with_one_of_err (invalid_choice_error self v) self)
         (with_value (Some v) self)
  else with_value (Some v) self.
Proof.
  unfold set_value, value_with; cbn [fst with_value m_one_of].
  destruct (_ && _); [|reflexivity]. cbn [fst].
  now rewrite (invalid_choice_error_ext (with_value (Some v) self) self).
Qed.

(** X1.  [set_default_value(v)] followed by [default_value()] returns [v]
    and [default_value_supplied()] is true; a second [set_default_value]
    replaces the first without trace; and the call leaves [value()],
    [value_supplied()] and [one_of_err] as they were. *)
Theorem default_value_round_trip (T : value_kind) (v0 v : value_type T)
    (self : typed_option T) :
  default_value (set_default_value v self) = Returned v /\
  default_value_supplied (set_default_value v self) = true /\
  set_default_value v (set_default_value v0 self) = set_default_value v self /\
  value (set_default_value v self) = value self /\
  value_supplied (set_default_value v self) = value_supplied self /\
  m_one_of_err (set_default_value v self) = m_one_of_err self.
Proof. repeat split. Qed.

(** X2.  Assigning a value and setting a default commute: the two members
    are independent, and neither call disturbs what the other stored; in
    particular [value(v)] never changes [default_value()]. *)
Theorem value_and_default_commute (T : value_kind) (v d : value_type T)
    (flag : bool) (self : typed_option T) :
  set_value v flag (set_default_value d self) =
    set_default_value d (set_value v flag self) /\
  default_value (set_value v flag self) = default_value self /\
  default_value_supplied (set_value v flag self) = default_value_supplied self.
Proof.
  rewrite !set_value_cases. cbn [set_default_value m_one_of].
  destruct (_ && _); repeat split.
  now rewrite (invalid_choice_error_ext (set_default_value d self) self v).
Qed.

(** X3.  When the choice set is empty (no constraint) or contains the
    value, [value(v)] changes nothing but [m_value]: no message is
    written, and one recorded earlier is left in place. *)
Theorem accepted_value_only_sets_value (T : value_kind) (v : value_type T)
    (flag : bool) (self : typed_option T) :
  m_one_of self = [] \/ set_contains v (m_one_of self) = true ->
  set_value v flag self = with_value (Some v) self.
Proof.
  intros Hok. rewrite set_value_cases.
  destruct Hok as [-> | ->]; [reflexivity | now rewrite andb_false_r].
Qed.

Lemma accepted_value_only_sets_value_witness :
  set_value (T := Int32) 32 false batch_size =
    with_value (T := Int32) (Some 32) batch_size /\
  set_value (T := Str) "x" false alpha = with_value (T := Str) (Some "x") alpha.
Proof.
  split.
  - apply (accepted_value_only_sets_value Int32 32 false batch_size).
    right. reflexivity.
  - apply (accepted_value_only_sets_value Str "x" false alpha).
    left. reflexivity.
Defined.

(** X4.  Assigning the same value twice is the same as assigning it once,
    whether or not the value is an allowed choice and whatever the flags. *)
Theorem set_value_idempotent (T : value_kind) (v : value_type T)
    (flag flag' : bool) (self : typed_option T) :
  set_value v flag' (set_value v flag self) = set_value v flag self.
Proof.
  rewrite (set_value_cases v flag self).
  destruct (_ && _) eqn:Hcheck; rewrite set_value_cases;
    cbn [with_base with_value m_one_of]; rewrite Hcheck; [|reflexivity].
  match goal with
  | |- context [invalid_choice_error ?o v] =>
      lazymatch o with
      | self => fail
      | _ => now rewrite (invalid_choice_error_ext o self v)
      end
  end.
Qed.

(** ** Membership in the choice set *)

Lemma string_compare_refl (a : string) : String.compare a a = Eq.
Proof.
  pose proof (String.compare_antisym a a) as H.
  destruct (String.compare a a); [reflexivity | discriminate | discriminate].
Qed.

Lemma string_ltb_irrefl (a : string) : String.ltb a a = false.
Proof. unfold String.ltb. now rewrite string_compare_refl. Qed.

Lemma string_ltb_both_false (a b : string) :
  String.ltb a b = false -> String.ltb b a = false -> a = b.
Proof.
  unfold String.ltb. rewrite (String.compare_antisym b a).
  destruct (String.compare a b) eqn:Hc; cbn; try discriminate.
  intros _ _. now apply String.compare_eq_iff.
Qed.

Lemma vector_ltb_irrefl (a : list string) : vector_ltb a a = false.
Proof.
  induction a as [|x a IH]; [reflexivity|].
  cbn [vector_ltb]. now rewrite string_ltb_irrefl.
Qed.

Lemma vector_ltb_both_false (a b : list string) :
  vector_ltb a b = false -> vector_ltb b a = false -> a = b.
Proof.
  revert b; induction a as [|x a IH]; intros [|y b]; cbn [vector_ltb];
    try discriminate; [reflexivity|].
  destruct (String.ltb x y) eqn:Hxy; [discriminate|].
  destruct (String.ltb y x) eqn:Hyx; [discriminate|].
  intros Hab Hba. f_equal; [now apply string_ltb_both_false | now apply IH].
Qed.

(** Except on [float], two keys are equivalent for [std::less] exactly
    when they are the same value. *)
Lemma key_equiv_eq (T : value_kind) (a b : value_type T) :
  T <> Float -> key_equiv T a b = true <-> a = b.
Proof.
  unfold key_equiv. intros HT. rewrite andb_true_iff, !negb_true_iff.
  destruct T; cbn [value_ltb]; try contradiction.
  1-4: rewrite !Z.ltb_ge; lia.
  - destruct a, b; cbn; intuition congruence.
  - split; [intros [? ?]; now apply string_ltb_both_false|].
    intros ->. now rewrite string_ltb_irrefl.
  - split; [intros [? ?]; now apply vector_ltb_both_false|].
    intros ->. now rewrite vector_ltb_irrefl.
Qed.

Lemma set_contains_In (T : value_kind) (v : value_type T) (s : std_set T) :
  T <> Float -> set_contains v s = true <-> In v s.
Proof.
  intros HT. unfold set_contains. rewrite existsb_exists. split.
  - intros (x & Hx & Heq). apply key_equiv_eq in Heq; [now subst | exact HT].
  - intros Hv. exists v. split; [exact Hv | now apply key_equiv_eq].
Qed.

(** X5.  For every value type but [float], and a non-empty choice set:
    [value(v)] leaves [one_of_err] alone when [v] is an element of the
    set, and overwrites it with [invalid_choice_error(v)] when [v] is not. *)
Theorem rejection_iff_not_element (T : value_kind) (v : value_type T)
    (flag : bool) (self : typed_option T) :
  T <> Float ->
  m_one_of self <> [] ->
  (In v (m_one_of self) ->
   m_one_of_err (set_value v flag self) = m_one_of_err self) /\
  (~ In v (m_one_of self) ->
   m_one_of_err (set_value v flag self) = invalid_choice_error self v).
Proof.
  intros HT Hne. rewrite set_value_cases.
  assert (Hsize : (0 <? set_size (m_one_of self)) = true).
  { apply Z.ltb_lt. unfold set_size. destruct (m_one_of self); [contradiction | cbn; lia]. }
  rewrite Hsize. cbn [andb]. split; intros Hv.
  - apply (set_contains_In T v _ HT) in Hv. now rewrite Hv.
  - destruct (set_contains v (m_one_of self)) eqn:Hc; [|reflexivity].
    apply (set_contains_In T v _ HT) in Hc. contradiction.
Qed.

Lemma rejection_iff_not_element_witness :
  m_one_of_err (set_value (T := Int32) 32 false batch_size) = "" /\
  m_one_of_err (set_value (T := Int32) 100 false batch_size) =
  "Error: '100' is not a valid choice for option --batch-size. Please select from {16, 32, 64}".
Proof.
  split.
  - apply (rejection_iff_not_element Int32 32 false batch_size);
      [discriminate | discriminate | right; left; reflexivity].
  - apply (rejection_iff_not_element Int32 100 false batch_size);
      [discriminate | discriminate |].
    intros [H|[H|[H|[]]]]; discriminate H.
Defined.

(** ** The equality operators as relations *)

Lemma SFeqb_finite (s1 s2 : bool) (m1 m2 : positive) (e1 e2 : Z) :
  SFeqb (S754_finite s1 m1 e1) (S754_finite s2 m2 e2) = true <->
  s1 = s2 /\ m1 = m2 /\ e1 = e2.
Proof.
  unfold SFeqb, SFcompare.
  change (Pos.compare_cont Eq m1 m2) with (Pos.compare m1 m2).
  split.
  - destruct s1, s2; try discriminate;
      destruct (Z.compare_spec e1 e2); try discriminate;
      destruct (Pos.compare_spec m1 m2); try discriminate; now subst.
  - intros (-> & -> & ->). rewrite Z.compare_refl, Pos.compare_refl.
    now destruct s2.
Qed.

Lemma SFeqb_sym (a b : spec_float) : SFeqb a b = SFeqb b a.
Proof.
  destruct (SFeqb a b) eqn:Hab, (SFeqb b a) eqn:Hba; try reflexivity; exfalso.
  - destruct a as [s1|s1| |s1 m1 e1], b as [s2|s2| |s2 m2 e2];
      try discriminate; try (destruct s1, s2; discriminate).
    apply SFeqb_finite in Hab as (-> & -> & ->).
    assert (H : SFeqb (S754_finite s2 m2 e2) (S754_finite s2 m2 e2) = true)
      by now apply SFeqb_finite.
    congruence.
  - destruct a as [s1|s1| |s1 m1 e1], b as [s2|s2| |s2 m2 e2];
      try discriminate; try (destruct s1, s2; discriminate).
    apply SFeqb_finite in Hba as (-> & -> & ->).
    assert (H : SFeqb (S754_finite s1 m1 e1) (S754_finite s1 m1 e1) = true)
      by now apply SFeqb_finite.
    congruence.
Qed.

Lemma SFeqb_trans (a b c : spec_float) :
  SFeqb a b = true -> SFeqb b c = true -> SFeqb a c = true.
Proof.
  destruct a as [s1|s1| |s1 m1 e1], b as [s2|s2| |s2 m2 e2],
    c as [s3|s3| |s3 m3 e3];
    try discriminate; try reflexivity;
    try (destruct s1, s2, s3; (discriminate || reflexivity)).
  intros (-> & -> & ->)%SFeqb_finite (-> & -> & ->)%SFeqb_finite.
  now apply SFeqb_finite.
Qed.

Lemma value_eqb_sym (T : value_kind) (a b : value_type T) :
  value_eqb T a b = value_eqb T b a.
Proof.
  destruct T; cbn [value_eqb];
    try apply Z.eqb_sym; try apply String.eqb_sym; try apply SFeqb_sym.
  - now destruct a, b.
  - destruct (vector_eqb a b) eqn:Hab, (vector_eqb b a) eqn:Hba; try reflexivity.
    + apply vector_eqb_eq in Hab as ->.
      assert (vector_eqb b b = true) by now apply vector_eqb_eq. congruence.
    + apply vector_eqb_eq in Hba as ->.
      assert (vector_eqb a a = true) by now apply vector_eqb_eq. congruence.
Qed.

Lemma value_eqb_trans (T : value_kind) (a b c : value_type T) :
  value_eqb T a b = true -> value_eqb T b c = true -> value_eqb T a c = true.
Proof.
  destruct (decide (T = Float)) as [-> | HT]; [apply SFeqb_trans|].
  rewrite !(value_eqb_eq T) by exact HT. congruence.
Qed.

(** [v == v] is false exactly for NaN. *)
Lemma value_eqb_self (T : value_kind) (v : value_type T) :
  value_eqb T v v = negb (is_nan T v).
Proof.
  destruct (is_nan T v) eqn:Hnan; [|now apply value_eqb_refl].
  destruct T; try discriminate. now destruct v.
Qed.

(** X6.  [operator==] on typed options is symmetric, failures included:
    [lhs == rhs] and [rhs == lhs] return the same boolean or both throw;
    so does [operator!=]. *)
Theorem typed_option_eq_symmetric (T : value_kind) (lhs rhs : typed_option T) :
  typed_option_eq lhs rhs = typed_option_eq rhs lhs /\
  typed_option_neq lhs rhs = typed_option_neq rhs lhs.
Proof.
  assert (H : typed_option_eq lhs rhs = typed_option_eq rhs lhs).
  { rewrite !typed_option_eq_cases.
    rewrite (String.eqb_sym (m_name rhs)), (Z.eqb_sym (m_type_hash rhs)),
      (String.eqb_sym (m_help rhs)), (String.eqb_sym (m_short_name rhs)).
    replace (Bool.eqb (m_keep rhs) (m_keep lhs))
      with (Bool.eqb (m_keep lhs) (m_keep rhs))
      by (now destruct (m_keep lhs), (m_keep rhs)).
    replace (Bool.eqb (m_necessary rhs) (m_necessary lhs))
      with (Bool.eqb (m_necessary lhs) (m_necessary rhs))
      by (now destruct (m_necessary lhs), (m_necessary rhs)).
    destruct (_ && _ && _ && _ && _); [|reflexivity].
    destruct (m_default_value lhs) as [l|], (m_default_value rhs) as [r|];
      try reflexivity.
    now rewrite (value_eqb_sym T r l). }
  split; [exact H|]. unfold typed_option_neq. now rewrite H.
Qed.

(** X7.  Comparing an option with itself returns true when it has a
    default value other than NaN, returns false when its default is a
    [float] NaN, and throws the missing-default failure when it has no
    default. *)
Theorem typed_option_eq_self (T : value_kind) (self : typed_option T) :
  typed_option_eq self self =
  match m_default_value self with
  | Some d => Returned (negb (is_nan T d))
  | None => Thrown MissingDefault
  end.
Proof.
  rewrite typed_option_eq_cases, !String.eqb_refl, Z.eqb_refl, !Bool.eqb_reflx.
  cbn [andb]. destruct (m_default_value self) as [d|]; [|reflexivity].
  now rewrite value_eqb_self, andb_true_r.
Qed.

(** X8.  [operator==] is transitive: if [a == b] and [b == c] both return
    true, so does [a == c]. *)
Theorem typed_option_eq_transitive (T : value_kind) (a b c : typed_option T) :
  typed_option_eq a b = Returned true ->
  typed_option_eq b c = Returned true ->
  typed_option_eq a c = Returned true.
Proof.
  rewrite !typed_option_eq_cases. intros Hab Hbc.
  destruct (_ && _ && _ && _ && Bool.eqb (m_keep a) (m_keep b)) eqn:Lab;
    [|discriminate].
  destruct (_ && _ && _ && _ && Bool.eqb (m_keep b) (m_keep c)) eqn:Lbc;
    [|discriminate].
  apply leading_fields_eqb in Lab as (Hn & Hh & Hhe & Hs & Hk).
  apply leading_fields_eqb in Lbc as (Hn' & Hh' & Hhe' & Hs' & Hk').
  assert (Lac := proj2 (leading_fields_eqb a c)
                   (conj (eq_trans Hn Hn') (conj (eq_trans Hh Hh')
                      (conj (eq_trans Hhe Hhe') (conj (eq_trans Hs Hs')
                         (eq_trans Hk Hk')))))).
  rewrite Lac.
  destruct (m_default_value a) as [da|]; [|discriminate].
  destruct (m_default_value b) as [db|]; [|discriminate].
  destruct (m_default_value c) as [dc|]; [|discriminate].
  injection Hab as Hab. injection Hbc as Hbc.
  apply andb_true_iff in Hab as [Vab Nab], Hbc as [Vbc Nbc].
  apply Bool.eqb_prop in Nab, Nbc.
  rewrite (value_eqb_trans T da db dc Vab Vbc), Nab, Nbc.
  now rewrite Bool.eqb_reflx.
Qed.

Lemma typed_option_eq_transitive_witness :
  typed_option_eq batch_size
    (set_one_of (T := Int32) [] (set_value (T := Int32) 100 false batch_size)) =
  Returned true.
Proof.
  apply (typed_option_eq_transitive Int32 batch_size
           (set_value (T := Int32) 100 false batch_size)
           (set_one_of (T := Int32) [] (set_value (T := Int32) 100 false batch_size)));
    reflexivity.
Defined.

(** What one call leaves alone: every member of [base_option] except
    [m_one_of_err]. *)
Lemma call_frame {T} (c : member_call T) (self : typed_option T) :
  m_name (call c self) = m_name self /\
  m_type_hash (call c self) = m_type_hash self /\
  m_help (call c self) = m_help self /\
  m_short_name (call c self) = m_short_name self /\
  m_keep (call c self) = m_keep self /\
  m_necessary (call c self) = m_necessary self /\
  m_allow_override (call c self) = m_allow_override self /\
  m_hidden_from_help (call c self) = m_hidden_from_help self.
Proof.
  destruct c as [v flag|s|v]; cbn [call]; try (repeat split; reflexivity).
  rewrite set_value_cases. destruct (_ && _); repeat split; reflexivity.
Qed.

Lemma call_default {T} (c : member_call T) (self : typed_option T) :
  m_default_value (call c self) =
  match c with
  | CallSetDefaultValue v => Some v
  | _ => m_default_value self
  end.
Proof.
  destruct c as [v flag|s|v]; cbn [call]; try reflexivity.
  rewrite set_value_cases. now destruct (_ && _).
Qed.

Lemma call_value {T} (c : member_call T) (self : typed_option T) :
  m_value (call c self) =
  match c with
  | CallValue v _ => Some v
  | _ => m_value self
  end.
Proof.
  destruct c as [v flag|s|v]; cbn [call]; try reflexivity.
  rewrite set_value_cases. now destruct (_ && _).
Qed.

Lemma call_one_of {T} (c : member_call T) (self : typed_option T) :
  m_one_of (call c self) =
  match c with
  | CallSetOneOf s => s
  | _ => m_one_of self
  end.
Proof.
  destruct c as [v flag|s|v]; cbn [call]; try reflexivity.
  rewrite set_value_cases. now destruct (_ && _).
Qed.

Lemma call_all_cons {T} (c : member_call T) (cs : list (member_call T))
    (self : typed_option T) :
  call_all (c :: cs) self = call_all cs (call c self).
Proof. reflexivity. Qed.

Lemma call_all_frame {T} (cs : list (member_call T)) (self : typed_option T) :
  m_name (call_all cs self) = m_name self /\
  m_type_hash (call_all cs self) = m_type_hash self /\
  m_help (call_all cs self) = m_help self /\
  m_short_name (call_all cs self) = m_short_name self /\
  m_keep (call_all cs self) = m_keep self /\
  m_necessary (call_all cs self) = m_necessary self /\
  m_allow_override (call_all cs self) = m_allow_override self /\
  m_hidden_from_help (call_all cs self) = m_hidden_from_help self.
Proof.
  revert self. induction cs as [|c cs IH]; intros self; [repeat split|].
  rewrite call_all_cons.
  destruct (IH (call c self)) as (-> & -> & -> & -> & -> & -> & -> & ->).
  apply call_frame.
Qed.

Lemma call_all_default_kept {T} (cs : list (member_call T)) (self : typed_option T) :
  forallb (fun c => negb (is_default_call c)) cs = true ->
  m_default_value (call_all cs self) = m_default_value self.
Proof.
  revert self. induction cs as [|c cs IH]; intros self; [reflexivity|].
  cbn [forallb]. intros [Hc Hcs]%andb_true_iff.
  rewrite call_all_cons, IH by exact Hcs. rewrite call_default.
  now destruct c.
Qed.

(** The result of [operator==] is a function of the seven members it reads. *)
Lemma typed_option_eq_ext {T} (a a' b b' : typed_option T) :
  m_name a = m_name a' -> m_type_hash a = m_type_hash a' ->
  m_help a = m_help a' -> m_short_name a = m_short_name a' ->
  m_keep a = m_keep a' -> m_necessary a = m_necessary a' ->
  m_default_value a = m_default_value a' ->
  m_name b = m_name b' -> m_type_hash b = m_type_hash b' ->
  m_help b = m_help b' -> m_short_name b = m_short_name b' ->
  m_keep b = m_keep b' -> m_necessary b = m_necessary b' ->
  m_default_value b = m_default_value b' ->
  typed_option_eq a b = typed_option_eq a' b'.
Proof.
  intros Ha1 Ha2 Ha3 Ha4 Ha5 Ha6 Ha7 Hb1 Hb2 Hb3 Hb4 Hb5 Hb6 Hb7.
  rewrite !typed_option_eq_cases.
  now rewrite Ha1, Ha2, Ha3, Ha4, Ha5, Ha6, Ha7, Hb1, Hb2, Hb3, Hb4, Hb5, Hb6, Hb7.
Qed.

(** X9.  [operator==] does not see assignments: after any calls of
    [value] and [set_one_of] on either operand (none of
    [set_default_value]), the comparison gives what it gave before,
    whether a boolean or the missing-default failure. *)
Theorem typed_option_eq_ignores_assignments (T : value_kind)
    (cs ds : list (member_call T)) (lhs rhs : typed_option T) :
  forallb (fun c => negb (is_default_call c)) cs = true ->
  forallb (fun c => negb (is_default_call c)) ds = true ->
  typed_option_eq (call_all cs lhs) (call_all ds rhs) = typed_option_eq lhs rhs.
Proof.
  intros Hcs Hds.
  destruct (call_all_frame cs lhs) as (? & ? & ? & ? & ? & ? & _).
  destruct (call_all_frame ds rhs) as (? & ? & ? & ? & ? & ? & _).
  apply typed_option_eq_ext; try assumption; now apply call_all_default_kept.
Qed.

Lemma typed_option_eq_ignores_assignments_witness :
  typed_option_eq
    (call_all [CallValue (T := Int32) 100 false; CallSetOneOf (T := Int32) [1]] batch_size)
    (call_all [CallValue (T := Int32) 16 true] batch_size) =
  typed_option_eq batch_size batch_size.
Proof.
  apply (typed_option_eq_ignores_assignments Int32
           [CallValue (T := Int32) 100 false; CallSetOneOf (T := Int32) [1]]
           [CallValue (T := Int32) 16 true] batch_size batch_size);
    reflexivity.
Defined.

(** X10.  The typed [operator==] refines the one of [base_option]:
    whenever it returns true the base comparison is true, and when both
    operands have a default it returns the base comparison conjoined with
    the comparison of the defaults. *)
Theorem typed_option_eq_refines_base (T : value_kind) (lhs rhs : typed_option T) :
  (typed_option_eq lhs rhs = Returned true -> base_option_eq lhs rhs = true) /\
  (forall l r : value_type T,
      m_default_value lhs = Some l -> m_default_value rhs = Some r ->
      typed_option_eq lhs rhs = Returned (base_option_eq lhs rhs && value_eqb T l r)).
Proof.
  rewrite typed_option_eq_cases. unfold base_option_eq. split.
  - destruct (_ && _ && _ && _ && _); [|discriminate].
    destruct (m_default_value lhs), (m_default_value rhs); try discriminate.
    intros [= [_ ->]%andb_true_iff]. reflexivity.
  - intros l r -> ->.
    destruct (_ && _ && _ && _ && _); [|reflexivity].
    cbn [andb]. now rewrite andb_comm.
Qed.

Lemma typed_option_eq_refines_base_witness :
  base_option_eq batch_size (set_value (T := Int32) 100 false batch_size) = true /\
  typed_option_eq batch_size (set_default_value (T := Int32) 64 batch_size) =
    Returned (base_option_eq batch_size (set_default_value (T := Int32) 64 batch_size)
              && value_eqb Int32 32 64).
Proof.
  split.
  - pose proof (typed_option_eq_refines_base Int32 batch_size
                  (set_value (T := Int32) 100 false batch_size)) as [H _].
    apply H. reflexivity.
  - pose proof (typed_option_eq_refines_base Int32 batch_size
                  (set_default_value (T := Int32) 64 batch_size)) as [_ H].
    apply H; reflexivity.
Defined.

Lemma base_option_eq_iff (lhs rhs : base_option) :
  base_option_eq lhs rhs = true <->
  m_name lhs = m_name rhs /\ m_type_hash lhs = m_type_hash rhs /\
  m_help lhs = m_help rhs /\ m_short_name lhs = m_short_name rhs /\
  m_keep lhs = m_keep rhs /\ m_necessary lhs = m_necessary rhs.
Proof.
  unfold base_option_eq.
  rewrite !andb_true_iff, !String.eqb_eq, Z.eqb_eq, !Bool.eqb_true_iff. tauto.
Qed.

(** X11.  [operator==] on [base_option] is an equivalence relation that
    never fails, and [operator!=] is its complement; it does not read
    [allow_override], [hidden_from_help] or [one_of_err], so two options
    that differ only there compare equal. *)
Theorem base_option_eq_equivalence (a b c : base_option) :
  base_option_eq a a = true /\
  base_option_eq a b = base_option_eq b a /\
  (base_option_eq a b = true -> base_option_eq b c = true ->
   base_option_eq a c = true) /\
  base_option_neq a b = negb (base_option_eq a b) /\
  (forall (allow hidden : bool) (err : string),
      base_option_eq a
        (BaseOption (m_name a) (m_type_hash a) (m_help a) (m_short_name a)
           (m_keep a) (m_necessary a) allow hidden err) = true).
Proof.
  split; [now apply base_option_eq_iff|]. split; [|split; [|split]].
  - destruct (base_option_eq a b) eqn:Hab, (base_option_eq b a) eqn:Hba;
      try reflexivity.
    + apply base_option_eq_iff in Hab.
      assert (base_option_eq b a = true) by (apply base_option_eq_iff; intuition).
      congruence.
    + apply base_option_eq_iff in Hba.
      assert (base_option_eq a b = true) by (apply base_option_eq_iff; intuition).
      congruence.
  - rewrite !base_option_eq_iff. intuition congruence.
  - reflexivity.
  - intros allow hidden err. now apply base_option_eq_iff.
Qed.

Lemma base_option_eq_equivalence_witness :
  base_option_eq batch_size (set_value (T := Int32) 100 false batch_size) = true.
Proof.
  pose proof (base_option_eq_equivalence batch_size batch_size
                (set_value (T := Int32) 100 false batch_size)) as (Hr & _ & Ht & _).
  apply Ht; [exact Hr | reflexivity].
Defined.

(** X12.  Two freshly constructed options, possibly of different value
    types, compare equal as [base_option]s exactly when they have the same
    name and their types have the same [type_hash()]; so with distinct
    hash codes options of different types never compare equal. *)
Theorem fresh_options_base_eq (hash_code : value_kind -> size_t)
    (T U : value_kind) (n m : string) :
  base_option_eq (typed_option_new hash_code T n) (typed_option_new hash_code U m) = true <->
  n = m /\ type_hash hash_code T = type_hash hash_code U.
Proof.
  rewrite base_option_eq_iff. unfold type_hash. cbn. tauto.
Qed.

(** X13.  No sequence of [value], [set_one_of] and [set_default_value]
    calls changes [name], [type_hash], [help], [short_name], [keep],
    [necessary], [allow_override] or [hidden_from_help]; hence the
    [base_option] comparison of two options is unaffected by such calls
    on either of them. *)
Theorem calls_preserve_identity (T U : value_kind) (cs : list (member_call T))
    (ds : list (member_call U)) (lhs : typed_option T) (rhs : typed_option U) :
  (m_name (call_all cs lhs) = m_name lhs /\
   m_type_hash (call_all cs lhs) = m_type_hash lhs /\
   m_help (call_all cs lhs) = m_help lhs /\
   m_short_name (call_all cs lhs) = m_short_name lhs /\
   m_keep (call_all cs lhs) = m_keep lhs /\
   m_necessary (call_all cs lhs) = m_necessary lhs /\
   m_allow_override (call_all cs lhs) = m_allow_override lhs /\
   m_hidden_from_help (call_all cs lhs) = m_hidden_from_help lhs) /\
  base_option_eq (call_all cs lhs) (call_all ds rhs) = base_option_eq lhs rhs.
Proof.
  split; [apply call_all_frame|]. unfold base_option_eq.
  destruct (call_all_frame cs lhs) as (-> & -> & -> & -> & -> & -> & _).
  now destruct (call_all_frame ds rhs) as (-> & -> & -> & -> & -> & -> & _).
Qed.

Lemma last_or_cons {A} (a : A) (l : list A) (fallback : option A) :
  last_or (a :: l) fallback = last_or l (Some a).
Proof.
  unfold last_or. destruct l as [|b l]; [reflexivity|].
  change (last (a :: b :: l)) with (last (b :: l)).
  destruct (last (b :: l)) eqn:Hl; [reflexivity|]. now apply last_None in Hl.
Qed.

(** X14.  After any sequence of calls the last write wins, member by
    member: [m_value] is the argument of the last [value] call,
    [m_default_value] that of the last [set_default_value] call and
    [m_one_of] that of the last [set_one_of] call, each one unchanged when
    there was no such call.  So [value_supplied()] holds exactly when a
    value was there before or some [value] call was made; setting a
    default or a choice set never makes it true. *)
Theorem last_write_wins (T : value_kind) (cs : list (member_call T))
    (self : typed_option T) :
  m_value (call_all cs self) = last_or (assigned_values cs) (m_value self) /\
  m_default_value (call_all cs self) =
    last_or (assigned_defaults cs) (m_default_value self) /\
  Some (m_one_of (call_all cs self)) =
    last_or (assigned_choice_sets cs) (Some (m_one_of self)) /\
  value_supplied (call_all cs self) =
    value_supplied self || negb (Nat.eqb (length (assigned_values cs)) 0).
Proof.
  assert (Hv : forall self : typed_option T,
             m_value (call_all cs self) = last_or (assigned_values cs) (m_value self)).
  { induction cs as [|c cs IH]; intros o; [reflexivity|].
    rewrite call_all_cons, IH, call_value.
    destruct c; cbn [assigned_values flat_map app]; try reflexivity.
    now rewrite last_or_cons. }
  repeat split.
  - apply Hv.
  - clear Hv. revert self. induction cs as [|c cs IH]; intros o; [reflexivity|].
    rewrite call_all_cons, IH, call_default.
    destruct c; cbn [assigned_defaults flat_map app]; try reflexivity.
    now rewrite last_or_cons.
  - clear Hv. revert self. induction cs as [|c cs IH]; intros o; [reflexivity|].
    rewrite call_all_cons, IH, call_one_of.
    destruct c; cbn [assigned_choice_sets flat_map app]; try reflexivity.
    now rewrite last_or_cons.
  - unfold value_supplied. rewrite Hv. unfold last_or.
    destruct (assigned_values cs) as [|a l] eqn:Hl.
    + cbn. now rewrite orb_false_r.
    + destruct (last (a :: l)) eqn:Hlast; [|now apply last_None in Hlast].
      cbn. now rewrite orb_true_r.
Qed.

(** ** More on located options *)

(** The option part of the outcome does not depend on the callback. *)
Lemma value_with_option {T S} (callback : value_type T -> bool -> S -> S)
    (v : value_type T) (flag : bool) (self : typed_option T) (st : S) :
  fst (value_with callback v flag self st) = set_value v flag self.
Proof. reflexivity. Qed.

Lemma located_set_values_cons {T} (v : value_type T) (flag : bool)
    (calls : list (value_type T * bool)) (self : typed_option_with_location T)
    (mem : memory T) :
  located_set_values ((v, flag) :: calls) self mem =
  located_set_values calls (fst (located_set_value v flag self mem))
    (snd (located_set_value v flag self mem)).
Proof.
  cbn [located_set_values]. now destruct (located_set_value v flag self mem).
Qed.

(** X16.  The override of [value_set_callback] has no effect on the option
    itself: after any sequence of setter calls, the [typed_option<T>] part
    of a located option is what the same calls produce on a plain
    [typed_option<T>], and the pointer is the one given at construction. *)
Theorem located_option_behaves_as_plain (T : value_kind)
    (calls : list (value_type T * bool)) (self : typed_option_with_location T)
    (mem : memory T) :
  option_part (fst (located_set_values calls self mem)) =
    call_all (value_calls calls) (option_part self) /\
  m_location (fst (located_set_values calls self mem)) = m_location self.
Proof.
  revert self mem. induction calls as [|[v flag] calls IH]; intros self mem;
    [now split|].
  rewrite located_set_values_cons.
  destruct (IH (fst (located_set_value v flag self mem))
              (snd (located_set_value v flag self mem))) as [-> ->].
  rewrite located_set_value_option, value_with_option, located_set_value_location.
  now split.
Qed.

(** X17.  The write-back precedes the choice check and does not depend on
    it: a flagged assignment of a value outside a non-empty choice set
    still copies the value into the bound variable, while the message is
    recorded in [one_of_err]. *)
Theorem rejected_value_is_still_written (T : value_kind) (v : value_type T)
    (self : typed_option_with_location T) (mem : memory T) (loc : addr) :
  m_location self = Some loc ->
  0 < set_size (m_one_of self) ->
  set_contains v (m_one_of self) = false ->
  load loc (snd (located_set_value v true self mem)) = Some v /\
  stores (snd (located_set_value v true self mem)) = stores mem ++ [(loc, v)] /\
  m_one_of_err (fst (located_set_value v true self mem)) =
    invalid_choice_error (option_part self) v.
Proof.
  intros Hloc Hsize Hout.
  rewrite located_set_value_memory, Hloc, located_set_value_option,
    value_with_option, set_value_cases, Hout.
  apply Z.ltb_lt in Hsize. rewrite Hsize. cbn [andb negb].
  repeat split. apply load_store_same.
Qed.

Lemma rejected_value_is_still_written_witness :
  load 1%positive (snd (located_set_value (T := Int32) 9 true passes_limited initial_memory))
    = Some 9 /\
  stores (snd (located_set_value (T := Int32) 9 true passes_limited initial_memory))
    = [(1%positive, 9)] /\
  m_one_of_err (fst (located_set_value (T := Int32) 9 true passes_limited initial_memory))
    = "Error: '9' is not a valid choice for option --passes. Please select from {1, 2, 3}".
Proof.
  apply (rejected_value_is_still_written Int32 9 passes_limited initial_memory 1%positive);
    reflexivity.
Defined.

(** ** The message names the rejected value *)

Lemma string_length_append (a b : string) :
  String.length (a +:+ b) = (String.length a + String.length b)%nat.
Proof.
  induction a as [|c a IH]; [reflexivity|].
  change (Datatypes.S (String.length (a +:+ b)) =
          Datatypes.S (String.length a + String.length b)).
  now rewrite IH.
Qed.

Lemma append_cancel_r (a b c : string) : a +:+ c = b +:+ c -> a = b.
Proof.
  intros H.
  assert (Hlen : String.length a = String.length b).
  { apply (f_equal String.length) in H. rewrite !string_length_append in H. lia. }
  revert b H Hlen. induction a as [|x a IH]; intros [|y b] H Hlen;
    try discriminate Hlen; [reflexivity|].
  change (String x (a +:+ c) = String y (b +:+ c)) in H.
  injection H as -> H. f_equal. apply IH; [exact H|].
  now injection Hlen.
Qed.

Lemma to_string_inj (a b : Z) : to_string a = to_string b -> a = b.
Proof.
  unfold to_string. intros H.
  assert (Hparse : forall z : Z,
             NilZero.int_of_string (NilZero.string_of_int (Z.to_int z)) =
             Some (Z.to_int z)).
  { intros z. apply NilZero.isi; destruct z; cbn; try discriminate;
      intros [= Hnil]; now apply Unsigned.to_uint_nonnil in Hnil. }
  apply DecimalZ.to_int_inj.
  pose proof (Hparse a) as Ha. rewrite H, Hparse in Ha. now injection Ha.
Qed.

Lemma render_inj (T : value_kind) (a b : value_type T) :
  has_choice_message T = true -> render T a = render T b -> a = b.
Proof.
  destruct T; cbn; try discriminate; intros _; auto using to_string_inj.
Qed.

(** X18.  For [std::string] and the four integer types the message of
    [invalid_choice_error] determines the rejected value: on one option,
    two different values never yield the same message. *)
Theorem message_names_the_value (T : value_kind) (v1 v2 : value_type T)
    (self : typed_option T) :
  has_choice_message T = true ->
  v1 <> v2 ->
  invalid_choice_error self v1 <> invalid_choice_error self v2.
Proof.
  intros HT Hne Heq. apply Hne. apply (render_inj T _ _ HT).
  rewrite !invalid_choice_error_render in Heq by exact HT.
  unfold invalid_choice_error_string in Heq.
  apply (inj (String.append "Error: '")) in Heq.
  now apply append_cancel_r in Heq.
Qed.

Lemma message_names_the_value_witness :
  invalid_choice_error (T := Int32) batch_size 100 <>
  invalid_choice_error (T := Int32) batch_size (-100).
Proof.
  apply (message_names_the_value Int32 100 (-100) batch_size);
    [reflexivity | discriminate].
Defined.

(** ** Changing the choice set *)

(** X19.  [set_one_of] does not validate the value already stored: after
    it, [one_of()] is the new set while [value()] and [one_of_err] are as
    before, even when the stored value lies outside the new set.  The
    check happens only in the setter, so the order of the two calls
    matters: the same value assigned after [set_one_of] is flagged. *)
Theorem set_one_of_is_not_retroactive (T : value_kind) (v : value_type T)
    (flag : bool) (choices : std_set T) (self : typed_option T) :
  0 < set_size choices ->
  set_contains v choices = false ->
  one_of (set_one_of choices (set_value v flag self)) = choices /\
  value (set_one_of choices (set_value v flag self)) = Returned v /\
  m_one_of_err (set_one_of choices (set_value v flag self)) =
    m_one_of_err (set_value v flag self) /\
  m_one_of_err (set_value v flag (set_one_of choices self)) =
    invalid_choice_error (set_one_of choices self) v.
Proof.
  intros Hsize Hout. repeat split.
  - apply value_with_returns.
  - rewrite set_value_cases. cbn [set_one_of m_one_of]. rewrite Hout.
    apply Z.ltb_lt in Hsize. now rewrite Hsize.
Qed.

Lemma set_one_of_is_not_retroactive_witness :
  one_of (set_one_of (T := Str) ["a"; "b"] (set_value (T := Str) "c" false alpha)) = ["a"; "b"] /\
  value (set_one_of (T := Str) ["a"; "b"] (set_value (T := Str) "c" false alpha)) = Returned "c" /\
  m_one_of_err (set_one_of (T := Str) ["a"; "b"] (set_value (T := Str) "c" false alpha)) = "" /\
  m_one_of_err (set_value (T := Str) "c" false (set_one_of (T := Str) ["a"; "b"] alpha)) =
    "Error: 'c' is not a valid choice for option --alpha. Please select from {a, b}".
Proof.
  apply (set_one_of_is_not_retroactive Str "c" false ["a"; "b"] alpha); reflexivity.
Defined.
